(** * weldingengineer: the search widget, the clipboard button and the
      HTTPS redirect, embedded from [src/js/app.js], [src/js/codes.js] and
      [src/.htaccess.txt].

    The JavaScript is embedded shallowly: strings are sequences of UTF-16
    code units, values parsed from JSON are an inductive type, a callback
    that can throw returns a [completion], and the promise chains of the two
    scripts are run by explicit [then_]/[catch_] combinators over a page
    state that records the console and the alerts. *)

From Stdlib Require Import NArith ZArith Ascii String.
From stdpp Require Import base option list gmap strings.

Local Open Scope N_scope.

(** ** JavaScript strings *)

(** A JavaScript string is a finite sequence of 16-bit code units. *)
Abbreviation jsstring := (list N).

(** An ASCII literal as a JavaScript string (one code unit per character). *)
Definition str (s : string) : jsstring := N_of_ascii <$> list_ascii_of_string s.

(** ECMAScript [WhiteSpace] and [LineTerminator] code points, the ones that
    [String.prototype.trim] strips; all of them are single code units. *)
Definition isWhiteSpace (c : N) : bool :=
  (c =? 0x0009) || (c =? 0x000A) || (c =? 0x000B) || (c =? 0x000C) ||
  (c =? 0x000D) || (c =? 0x0020) || (c =? 0x00A0) || (c =? 0x1680) ||
  ((0x2000 <=? c) && (c <=? 0x200A)) ||
  (c =? 0x2028) || (c =? 0x2029) || (c =? 0x202F) || (c =? 0x205F) ||
  (c =? 0x3000) || (c =? 0xFEFF).

Fixpoint trimStart (s : jsstring) : jsstring :=
  match s with
  | c :: s' => if isWhiteSpace c then trimStart s' else s
  | [] => []
  end.

Definition trimEnd (s : jsstring) : jsstring := rev (trimStart (rev s)).

(** [s.trim()] *)
Definition trim (s : jsstring) : jsstring := trimEnd (trimStart s).

(** [t] occurs in [s] at position 0. *)
Fixpoint startsWith (s t : jsstring) {struct t} : bool :=
  match t, s with
  | [], _ => true
  | _ :: _, [] => false
  | c :: t', d :: s' => (c =? d) && startsWith s' t'
  end.

(** [s.includes(t)]: [t] occurs in [s] at some position, searched from the
    left. *)
Fixpoint includes (s t : jsstring) : bool :=
  startsWith s t ||
  match s with
  | [] => false
  | _ :: s' => includes s' t
  end.

(** [String.prototype.toLowerCase] follows the Unicode case tables of the
    engine, which are not part of the repository: the development is
    parametric in the mapping. *)
Class CaseMapping := toLowerCase : jsstring → jsstring.

(** The mapping restricted to Basic Latin, on which every engine agrees;
    it is used to evaluate the scripts on ASCII inputs. *)
Definition lowerUnit (c : N) : N :=
  if (0x41 <=? c) && (c <=? 0x5A) then c + 0x20 else c.

Definition asciiCase : CaseMapping := fmap lowerUnit.

Local Close Scope N_scope.

(** ** Values and exceptions *)

(** What [response.json()] can produce. A number is kept as a decimal
    mantissa and exponent; the scripts never inspect it. *)
#[warnings="-register-all"]
Inductive json : Type :=
  | JNull
  | JBool (b : bool)
  | JNum (mantissa exponent : Z)
  | JStr (s : jsstring)
  | JArr (elements : list json)
  | JObj (properties : gmap jsstring json).

(** Thrown values. The text of an engine-raised [TypeError] or
    [SyntaxError] is engine specific and not recorded. *)
Inductive exn : Type :=
  | Error (message : jsstring)
  | TypeError
  | SyntaxError
  | HostError (name : jsstring).

(** The outcome of running a piece of synchronous code, and also the settled
    state of a promise: fulfilled with a value or rejected with a reason. *)
Inductive completion (A : Type) : Type :=
  | Normal (a : A)
  | Throw (e : exn).
Arguments Normal {A} a.
Arguments Throw {A} e.

(** Sequencing: an exception skips the rest. *)
#[global] Instance completion_bind : MBind completion := λ A B k c,
  match c with
  | Normal a => k a
  | Throw e => Throw e
  end.

(** [v.k] for a property name [k] that no prototype defines ([title],
    [description]): [None] is [undefined]. Reading a property of [null]
    throws; a primitive or an array has no such own property. *)
Definition getProp (v : json) (k : jsstring) : completion (option json) :=
  match v with
  | JNull => Throw TypeError
  | JObj o => Normal (o !! k)
  | _ => Normal None
  end.

(** [v.toLowerCase()]: only a string has the method. On [undefined] and
    [null] the property read throws, on any other JSON value the property is
    not callable. *)
Definition callToLowerCase `{CaseMapping} (v : option json) : completion jsstring :=
  match v with
  | Some (JStr s) => Normal (toLowerCase s)
  | _ => Throw TypeError
  end.

(** [Array.prototype.filter]: the callback is called on every element from
    index 0 up, the elements it accepts are kept in order, and the first
    exception ends the loop. *)
Fixpoint arrayFilter (f : json → completion bool) (l : list json)
  : completion (list json) :=
  match l with
  | [] => Normal []
  | x :: l' =>
      b ← f x ;
      r ← arrayFilter f l' ;
      Normal (if b : bool then x :: r else r)
  end.

(** ** The host: console, alerts, promises *)

(** Calls into the browser that the two scripts make, in the order they are
    made; [Uncaught] is the host's report of an exception that left a
    listener. *)
Inductive effect : Type :=
  | Fetch (url : jsstring)
  | ConsoleLog (label : jsstring) (value : json)
  | ConsoleError (label : jsstring) (reason : exn)
  | Alert (message : jsstring)
  | ClipboardWriteText (text : jsstring)
  | Uncaught (reason : exn).

(** A callback body run on a page state [S]: it completes normally or
    throws, and leaves a new state. *)
Definition job (S A : Type) : Type := S → completion A * S.

#[global] Instance job_ret {S} : MRet (job S) := λ A a s, (Normal a, s).

#[global] Instance job_bind {S} : MBind (job S) := λ A B k c s,
  match c s with
  | (Normal a, s') => k a s'
  | (Throw e, s') => (Throw e, s')
  end.

Definition throw {S A} (e : exn) : job S A := λ s, (Throw e, s).

(** [p.then(onFulfilled)] once [p] has settled: the reaction runs on a
    fulfilled [p]; a rejection passes through to the derived promise. The
    result is the settled state of the derived promise. *)
Definition then_ {S A B} (p : completion A) (onFulfilled : A → job S B) : job S B :=
  match p with
  | Normal a => onFulfilled a
  | Throw e => throw e
  end.

(** [p.catch(onRejected)] once [p] has settled. *)
Definition catch_ {S A} (p : completion A) (onRejected : exn → job S A) : job S A :=
  match p with
  | Normal a => mret a
  | Throw e => onRejected e
  end.

(** ** The search widget (src/js/app.js) *)

Module App.

(** The [data] object of the first Vue instance. [data] holds whatever the
    JSON resource parsed to. *)
Record vm : Type := Vm { query : jsstring; data : json }.

(** [data: { query: '', data: [] }] *)
Definition initial : vm := {| query := []; data := JArr [] |}.

Section Filter.
Context `{CaseMapping}.

(** The arrow function given to [filter], lines 26-29:
    [item.title.toLowerCase().includes(this.query.toLowerCase()) ||
     item.description.toLowerCase().includes(this.query.toLowerCase())]. *)
Definition itemMatches (q : jsstring) (item : json) : completion bool :=
  t ← getProp item (str "title") ;
  lt ← callToLowerCase t ;
  if includes lt (toLowerCase q) then Normal true
  else
    d ← getProp item (str "description") ;
    ld ← callToLowerCase d ;
    Normal (includes ld (toLowerCase q)).

(** The computed property [filteredResults], lines 22-30. [this.data.filter]
    is callable only when [this.data] is an array. *)
Definition filteredResults (this : vm) : completion (list json) :=
  match trim (query this) with
  | [] => Normal []
  | _ :: _ =>
      match data this with
      | JArr items => arrayFilter (itemMatches (query this)) items
      | _ => Throw TypeError
      end
  end.

(** The filter operation of the specification: the computed property read
    with catalog [C] loaded and [q] typed. *)
Definition filter_op (C : list json) (q : jsstring) : completion (list json) :=
  filteredResults {| query := q; data := JArr C |}.

End Filter.

(** *** Loading the catalog, lines 7-20 *)

(** The states of the specification's load machine. The script keeps no
    such variable: the phase is ghost state that records which reactions of
    the promise chain have run. [AwaitingResponse] and [AwaitingBody] are the
    specification's [Loading]. *)
Inductive phase : Type :=
  | Idle
  | AwaitingResponse
  | AwaitingBody
  | Ready
  | LoadFailed.

(** The fields of the [Response] that the script reads. *)
Record response : Type := Response { ok : bool; statusText : jsstring }.

(** The page: the Vue instance, the host calls made so far, the ghost phase. *)
Record page : Type := Page { view : vm; trace : list effect; loading : phase }.

Definition start : page := {| view := initial; trace := []; loading := Idle |}.

Definition perform (e : effect) : job page unit := λ s,
  (Normal tt, {| view := view s; trace := trace s ++ [e]; loading := loading s |}).

Definition setData (d : json) : job page unit := λ s,
  (Normal tt,
   {| view := {| query := query (view s); data := d |};
      trace := trace s; loading := loading s |}).

Definition setQuery (q : jsstring) : job page unit := λ s,
  (Normal tt,
   {| view := {| query := q; data := data (view s) |};
      trace := trace s; loading := loading s |}).

Definition enter (p : phase) : job page unit := λ s,
  (Normal tt, {| view := view s; trace := trace s; loading := p |}).

(** First reaction, lines 9-14. [Normal tt] stands for returning the promise
    of [response.json()], which settles later. *)
Definition checkResponse (r : response) : job page unit :=
  if ok r then enter AwaitingBody
  else throw (Error (str "Network response was not ok " ++ statusText r)).

(** Second reaction, lines 15-18. *)
Definition storeData (d : json) : job page unit :=
  perform (ConsoleLog (str "Data loaded successfully:") d) ;;
  setData d ;;
  enter Ready.

(** The rejection handler, line 19. *)
Definition reportError (e : exn) : job page unit :=
  perform (ConsoleError (str "Error loading pages:") e) ;;
  enter LoadFailed.

(** [.then(storeData).catch(reportError)] on the settled state [p] of the
    promise returned by the first reaction. *)
Definition finish (p : completion json) : job page unit :=
  λ s, let '(p2, s2) := then_ p storeData s in catch_ p2 reportError s2.

(** What happens to the page. *)
Inductive input : Type :=
  | Created
  | Typed (q : jsstring)
  | Responded (r : completion response)
  | BodyParsed (d : completion json).

(** One turn of the event loop. The [created] hook runs once; a response
    or a body is delivered only to a chain that waits for it. *)
Definition step (s : page) (i : input) : page :=
  match i, loading s with
  | Created, Idle =>
      snd ((perform (Fetch (str "js/pages.json")) ;; enter AwaitingResponse) s)
  | Typed q, _ => snd (setQuery q s)
  | Responded r, AwaitingResponse =>
      match then_ r checkResponse s with
      | (Normal _, s1) => s1
      | (Throw e, s1) => snd (finish (Throw e) s1)
      end
  | BodyParsed d, AwaitingBody => snd (finish d s)
  | _, _ => s
  end.

Definition run (s : page) (inputs : list input) : page := foldl step s inputs.

End App.

(** ** The clipboard button (src/js/codes.js) *)

Module Codes.

(** ["Le code a été copié dans le presse-papiers !"], line 12; [233] is the
    code unit of e-acute. *)
Definition copiedMessage : jsstring :=
  str "Le code a " ++ [233%N] ++ str "t" ++ [233%N] ++ str " copi" ++
  [233%N] ++ str " dans le presse-papiers !".

(** Line 15. *)
Definition failureLabel : jsstring := str "Erreur lors de la copie : ".

(** Line 16. *)
Definition manualMessage : jsstring :=
  str "Impossible de copier le code. Copiez-le manuellement.".

(** What happens to the page: a click on [#copyButton], in a document where
    [#myCode] has inner text [code] ([None]: no such element) and
    [navigator.clipboard] is defined or not; and the settling of the promise
    of the [n]-th call of [writeText]. *)
Inductive input : Type :=
  | Click (code : option jsstring) (clipboard : bool)
  | WriteSettled (n : nat) (outcome : completion unit).

(** The history of the page: what happened to it and the host calls the
    script made, in order. *)
Inductive entry : Type :=
  | Happened (i : input)
  | Did (e : effect).

(** [issued] counts the calls of [writeText]; [pending] holds the ones whose
    promise has not settled. *)
Record page : Type :=
  Page { history : list entry; issued : nat; pending : list nat }.

Definition start : page := {| history := []; issued := 0; pending := [] |}.

Definition perform (e : effect) : job page unit := λ s,
  (Normal tt,
   {| history := history s ++ [Did e]; issued := issued s; pending := pending s |}).

Definition note (i : input) : job page unit := λ s,
  (Normal tt,
   {| history := history s ++ [Happened i]; issued := issued s;
      pending := pending s |}).

(** [navigator.clipboard.writeText(text)]: the call is made and its promise
    is pending. *)
Definition writeText (text : jsstring) : job page unit := λ s,
  (Normal tt,
   {| history := history s ++ [Did (ClipboardWriteText text)];
      issued := S (issued s); pending := pending s ++ [issued s] |}).

Definition settle (n : nat) : job page unit := λ s,
  (Normal tt,
   {| history := history s; issued := issued s;
      pending := filter (λ m, m ≠ n) (pending s) |}).

(** The body of the click listener up to the call of [writeText], lines
    7-10. Reading [innerText] of a missing element and reading [writeText] of
    an undefined [navigator.clipboard] throw. *)
Definition onClick (code : option jsstring) (clipboard : bool) : job page unit :=
  match code with
  | None => throw TypeError
  | Some codeToCopy =>
      if clipboard then writeText codeToCopy else throw TypeError
  end.

(** Lines 11-13. *)
Definition onCopied (_ : unit) : job page unit := perform (Alert copiedMessage).

(** Lines 14-17. *)
Definition onFailed (err : exn) : job page unit :=
  perform (ConsoleError failureLabel err) ;;
  perform (Alert manualMessage).

(** [.then(onCopied).catch(onFailed)] on the settled state of the promise of
    [writeText]. *)
Definition reactions (outcome : completion unit) : job page unit :=
  λ s, let '(p, s1) := then_ outcome onCopied s in catch_ p onFailed s1.

(** One turn of the event loop. An exception that leaves the listener is
    reported by the host and changes nothing else; a settlement is delivered
    only to a promise that is pending. *)
Definition step (s : page) (i : input) : page :=
  match i with
  | Click code clipboard =>
      match (note i ;; onClick code clipboard) s with
      | (Normal _, s1) => s1
      | (Throw e, s1) => snd (perform (Uncaught e) s1)
      end
  | WriteSettled n outcome =>
      if bool_decide (n ∈ pending s)
      then snd ((note i ;; settle n ;; reactions outcome) s)
      else s
  end.

Definition run (s : page) (inputs : list input) : page := foldl step s inputs.

(** Projections of a history used to state the properties. *)
Definition isAlert (x : entry) : bool :=
  match x with Did (Alert _) => true | _ => false end.

Definition isLog (x : entry) : bool :=
  match x with
  | Did (ConsoleLog _ _) | Did (ConsoleError _ _) => true
  | _ => false
  end.

Definition isSettlement (x : entry) : bool :=
  match x with Happened (WriteSettled _ _) => true | _ => false end.

Definition count (f : entry → bool) (h : list entry) : nat :=
  length (List.filter f h).

End Codes.

(** ** The rewrite rules (src/.htaccess.txt) *)

Module Htaccess.

(** The file is read as the [.htaccess] of the document root of an Apache
    server that allows it. A request is modelled by what the rules and the
    server's treatment of the path depend on: the transport, the [Host]
    header and the target of the request line. The answers are partial:
    [None] stands for a request whose answer depends on server routines
    that are not modelled (other forms of target, the normalisation of dot
    segments and repeated slashes, the escaping of the [Location] header, a
    question mark in the expanded substitution). *)
Record request : Type :=
  Request { https : bool; host : string; target : string }.

Inductive response : Type :=
  | Redirect (status : nat) (location : string)
  | Served (status : nat) (body : string)
  | Refused (status : nat).

(** What the rest of the server's configuration decides: the files behind
    the paths, and the paths that access control refuses before the rules
    of the directory run. *)
Record site : Type :=
  Site { files : string → option string; denied : string → bool }.

Fixpoint allChars (p : ascii → bool) (s : string) : bool :=
  match s with
  | EmptyString => true
  | String c s' => p c && allChars p s'
  end.

Definition between (lo hi : N) (c : ascii) : bool :=
  ((lo <=? N_of_ascii c) && (N_of_ascii c <=? hi))%N.

Definition isDigit (c : ascii) : bool := between 48 57 c.

Definition isAlnum (c : ascii) : bool :=
  isDigit c || between 65 90 c || between 97 122 c.

(** Characters of a path that no escaping routine touches: letters, digits,
    [-], [.], [_], [~] and the slash. *)
Definition isPlain (c : ascii) : bool :=
  isAlnum c || Ascii.eqb c "-" || Ascii.eqb c "." || Ascii.eqb c "_" ||
  Ascii.eqb c "~" || Ascii.eqb c "/".

(** A string cut at the first occurrence of a character. *)
Fixpoint cutAt (sep : ascii) (s : string) : string * option string :=
  match s with
  | EmptyString => (EmptyString, None)
  | String c s' =>
      if Ascii.eqb c sep then (EmptyString, Some s')
      else let '(before, after) := cutAt sep s' in (String c before, after)
  end.

(** The target cut at its first [?]: the path as sent, and the query
    string. *)
Definition splitTarget (t : string) : string * option string := cutAt "?" t.

(** The targets covered: a path from the root, made of visible ASCII, with
    no fragment. *)
Definition originForm (t : string) : bool :=
  match t with
  | String "/" _ =>
      allChars (λ c, between 33 126 c && negb (Ascii.eqb c "#")) t
  | _ => false
  end.

(** The [Host] headers covered: a name of letters, digits, [-] and [.],
    then possibly a colon and a port in digits. *)
Definition validHost (h : string) : bool :=
  match cutAt ":" h with
  | (EmptyString, _) => false
  | (name, port) =>
      allChars (λ c, isAlnum c || Ascii.eqb c "-" || Ascii.eqb c ".") name &&
      match port with
      | None => true
      | Some EmptyString => false
      | Some digits => allChars isDigit digits
      end
  end.

Definition hexDigit (c : ascii) : option N :=
  if isDigit c then Some (N_of_ascii c - 48)%N
  else if between 65 70 c then Some (N_of_ascii c - 55)%N
  else if between 97 102 c then Some (N_of_ascii c - 87)%N
  else None.

(** The server's unescaping of the path, before any rule runs. A [%] that
    two hexadecimal digits do not follow is kept and makes the escape bad;
    an escape that decodes to a slash or to the null character makes the
    path bad. The result is the string and the two flags. *)
Fixpoint unescape (s : string) : string * (bool * bool) :=
  match s with
  | EmptyString => (EmptyString, (false, false))
  | String c s' =>
      if Ascii.eqb c "%" then
        match s' with
        | String a (String b rest) =>
            match hexDigit a, hexDigit b with
            | Some x, Some y =>
                let d := ascii_of_N (16 * x + y) in
                let '(u, (badesc, badpath)) := unescape rest in
                (String d u,
                 (badesc, badpath || Ascii.eqb d "/" || Ascii.eqb d zero))
            | _, _ =>
                let '(u, (_, badpath)) := unescape s' in
                (String "%" u, (true, badpath))
            end
        | _ =>
            let '(u, (_, badpath)) := unescape s' in
            (String "%" u, (true, badpath))
        end
      else
        let '(u, flags) := unescape s' in (String c u, flags)
  end.

Inductive unescaped : Type :=
  | Decoded (uri : string)
  | BadEscape
  | BadPath.

(** A bad escape is answered 400 and wins over a bad path, answered 404. *)
Definition unescapeUrl (path : string) : unescaped :=
  match unescape path with
  | (_, (true, _)) => BadEscape
  | (_, (false, true)) => BadPath
  | (uri, (false, false)) => Decoded uri
  end.

Fixpoint segmentsOf (s : string) : list string :=
  match s with
  | EmptyString => [EmptyString]
  | String c s' =>
      if Ascii.eqb c "/" then EmptyString :: segmentsOf s'
      else match segmentsOf s' with
           | seg :: rest => String c seg :: rest
           | [] => [String c EmptyString]
           end
  end.

Definition dotSegment (seg : string) : bool :=
  String.eqb seg "." || String.eqb seg "..".

Fixpoint cleanSegments (segs : list string) : bool :=
  match segs with
  | [] => true
  | [last] => negb (dotSegment last)
  | seg :: rest =>
      negb (dotSegment seg) && negb (String.eqb seg EmptyString) &&
      cleanSegments rest
  end.

(** The decoded paths that the server's normalisation leaves as they are:
    from the root, with no empty segment but possibly the last, and no
    segment that is [.] or [..]. *)
Definition canonical (uri : string) : bool :=
  match segmentsOf uri with
  | EmptyString :: ((_ :: _) as segs) => cleanSegments segs
  | _ => false
  end.

(** The server variables that the rules expand. [%{REQUEST_URI}] is the
    decoded path of the request. *)
Definition HTTPS (r : request) : string := if https r then "on" else "off".
Definition HTTP_HOST (r : request) : string := host r.
Definition QUERY_STRING (r : request) : option string := (splitTarget (target r)).2.

(** A [RewriteCond] pattern is a regular expression searched in the test
    string; [off] has no operator, so it is a substring search. *)
Definition condPattern (pattern test : string) : bool :=
  match String.index 0 pattern test with
  | Some _ => true
  | None => false
  end.

(** The pattern of the rule on line 5, a group of dot-star between the two
    anchors: it matches the whole of any input and captures it (the server
    compiles patterns so that the dot matches every character). *)
Definition matchWhole (input : string) : option string := Some input.

(** In a directory context the pattern is matched against the path without
    its leading slash. *)
Definition perDirPath (uri : string) : string :=
  match uri with
  | String "/" rest => rest
  | p => p
  end.

(** What a rule does with a request: it answers, it does not apply, or the
    answer is outside the model. *)
Inductive verdict : Type :=
  | Answered (a : response)
  | Declined
  | Uncovered.

(** The escaping of the path of a redirect, where it changes nothing. *)
Definition escapeUri (path : string) : option string :=
  if allChars isPlain path then Some path else None.

(** Flag [R=status] on the substitution [prefix] followed by [path]. When
    the expanded substitution holds a [?] the server splits it there and
    the query string of the request is no longer appended: that case is
    left out. Otherwise the path is escaped and the query string of the
    request, when it has one, is appended as it was received. *)
Definition externalRedirect (status : nat) (prefix path : string)
    (args : option string) : verdict :=
  if negb (allChars (λ c, negb (Ascii.eqb c "?")) (prefix +:+ path))
  then Uncovered
  else
    match escapeUri path with
    | None => Uncovered
    | Some escaped =>
        Answered
          (Redirect status
             (prefix +:+ escaped +:+
              match args with
              | Some query => "?" +:+ query
              | None => EmptyString
              end))
    end.

(** Line 1: [RewriteEngine On]. *)
Definition rewriteEngine : bool := true.

(** Lines 4-5: the condition [%{HTTPS} off], then the rule with the
    pattern above, the substitution [https://%{HTTP_HOST}%{REQUEST_URI}] and
    the flags [L,R=301], for a request whose decoded path is [uri]. *)
Definition forceHttps (r : request) (uri : string) : verdict :=
  if rewriteEngine && condPattern "off" (HTTPS r) then
    match matchWhole (perDirPath uri) with
    | Some _ =>
        externalRedirect 301 ("https://" +:+ HTTP_HOST r) uri (QUERY_STRING r)
    | None => Declined
    end
  else Declined.

(** Line 9: [ErrorDocument 404] with a full URL makes the server redirect
    the client to it. *)
Definition notFoundUrl : string :=
  "https://www.weldingengineer.org/annex/404-not-found.html".

(** The server in front of a site, with the rule set. The path is
    unescaped first (400 or 404 on failure), access control comes next
    (403), then the rules of the directory; [L] ends the rewriting as soon
    as the rule has applied. *)
Definition handle (s : site) (r : request) : option response :=
  if negb (originForm (target r) && validHost (host r)) then None
  else
    match unescapeUrl (splitTarget (target r)).1 with
    | BadEscape => Some (Refused 400)
    | BadPath => Some (Refused 404)
    | Decoded uri =>
        if negb (canonical uri) then None
        else if denied s uri then Some (Refused 403)
        else
          match forceHttps r uri with
          | Answered a => Some a
          | Uncovered => None
          | Declined =>
              match files s uri with
              | Some body => Some (Served 200 body)
              | None => Some (Redirect 302 notFoundUrl)
              end
          end
    end.

End Htaccess.

(** * The vocabulary of the specification *)

(** These definitions follow the words of the specification; the properties
    below relate them to the scripts. *)

(** The text held by field [k] of a record: [None] when the value is not an
    object, or the field is absent or not a string. *)
Definition textField (k : string) (e : json) : option jsstring :=
  match e with
  | JObj o =>
      match o !! str k with
      | Some (JStr s) => Some s
      | _ => None
      end
  | _ => None
  end.

(** A [PageEntry] of the data model: [title] and [description] are text. *)
Definition pageEntry (e : json) : Prop :=
  is_Some (textField "title" e) ∧ is_Some (textField "description" e).

Section Vocabulary.
Context `{CaseMapping}.

(** [text] contains [q] as a substring, compared case-insensitively. *)
Definition containsCI (text q : jsstring) : Prop :=
  ∃ before after, toLowerCase text = before ++ toLowerCase q ++ after.

(** The title or the description of [e] contains [q]. *)
Definition satisfies (q : jsstring) (e : json) : Prop :=
  ∃ text,
    (textField "title" e = Some text ∨ textField "description" e = Some text) ∧
    containsCI text q.

(** An entry on which the callback of the filter cannot run to its end for
    query [q]: the title is no text, or the title does not contain [q] and
    the description is no text. *)
Definition unreadable (q : jsstring) (e : json) : Prop :=
  textField "title" e = None ∨
  (textField "description" e = None ∧
   ∀ t, textField "title" e = Some t → ¬ containsCI t q).

End Vocabulary.

(** A record with the two text fields, for the examples. *)
Definition entry (title description : string) : json :=
  JObj {[ str "title" := JStr (str title);
          str "description" := JStr (str description) ]}.

(** The catalog of the scenario of the specification. *)
Definition scenario : list json :=
  [ entry "Arc Welding" "..."; entry "Metal Prep" "for arc stability" ].

(** A record with a title and no description. *)
Definition titleOnly (title : string) : json :=
  JObj {[ str "title" := JStr (str title) ]}.

(** Until the load has succeeded the catalog is the empty array it was
    created with. *)
Definition unpopulated (s : App.page) : Prop :=
  App.loading s ≠ App.Ready → App.data (App.view s) = JArr [].

(** The search widget never opens an alert. *)
Definition silent (s : App.page) : Prop := ∀ m, Alert m ∉ App.trace s.

(** What a turn of the event loop adds to the history. *)
Definition produced (s : Codes.page) (i : Codes.input) : list Codes.entry :=
  drop (length (Codes.history s)) (Codes.history (Codes.step s i)).

(** In every prefix of the history there are at least as many settlements
    as alerts. *)
Definition ordered (h : list Codes.entry) : Prop :=
  ∀ k, Codes.count Codes.isAlert (take k h)
       ≤ Codes.count Codes.isSettlement (take k h).

(** The filter written as a function on lists, for catalogs of page
    entries: an entry is kept when the lowercased title or description
    includes the lowercased query. *)
Definition hits `{CaseMapping} (q : jsstring) (e : json) : bool :=
  match textField "title" e, textField "description" e with
  | Some t, Some d =>
      includes (toLowerCase t) (toLowerCase q) ||
      includes (toLowerCase d) (toLowerCase q)
  | _, _ => false
  end.

Definition pureFilter `{CaseMapping} (q : jsstring) (C : list json) : list json :=
  match trim q with
  | [] => []
  | _ :: _ => List.filter (hits q) C
  end.

(** A record with one more field; other values are left as they are. *)
Definition addField (k : jsstring) (v : json) (e : json) : json :=
  match e with
  | JObj o => JObj (<[k := v]> o)
  | _ => e
  end.

(** The shape of the page of the search widget in each phase of the load:
    what was asked of the host so far, and what the catalog holds. *)
Definition consistent (s : App.page) : Prop :=
  match App.loading s with
  | App.Idle =>
      App.trace s = [] ∧ App.data (App.view s) = JArr []
  | App.AwaitingResponse | App.AwaitingBody =>
      App.trace s = [Fetch (str "js/pages.json")] ∧
      App.data (App.view s) = JArr []
  | App.Ready =>
      App.trace s =
        [Fetch (str "js/pages.json");
         ConsoleLog (str "Data loaded successfully:") (App.data (App.view s))]
  | App.LoadFailed =>
      (∃ e, App.trace s =
              [Fetch (str "js/pages.json");
               ConsoleError (str "Error loading pages:") e]) ∧
      App.data (App.view s) = JArr []
  end.

(** More projections of a history of the clipboard button. *)
Definition isError (x : Codes.entry) : bool :=
  match x with Codes.Did (ConsoleError _ _) => true | _ => false end.

Definition isRejection (x : Codes.entry) : bool :=
  match x with
  | Codes.Happened (Codes.WriteSettled _ (Throw _)) => true
  | _ => false
  end.

(** The texts given to [writeText], in order. *)
Definition written (h : list Codes.entry) : list jsstring :=
  omap (λ x, match x with
             | Codes.Did (ClipboardWriteText t) => Some t
             | _ => None
             end) h.

(** The texts of [#myCode] at the clicks made while the element and the
    clipboard were there, in order. *)
Definition requested (inputs : list Codes.input) : list jsstring :=
  omap (λ i, match i with
             | Codes.Click (Some t) true => Some t
             | _ => None
             end) inputs.

(** * Properties *)

(** Evaluates the fields of a concrete record. *)
Ltac page_entries :=
  repeat first
    [ apply Forall_nil
    | apply Forall_cons; split
    | split; eexists; vm_compute; reflexivity ].

(** ** Strings *)

Lemma startsWith_spec (s t : jsstring) :
  startsWith s t = true ↔ ∃ rest, s = t ++ rest.
Proof.
  revert s. induction t as [|c t IH]; intros s; simpl.
  - split; [eauto|done].
  - destruct s as [|d s].
    + split; [done|]. intros [rest Hrest]. discriminate.
    + rewrite andb_true_iff, N.eqb_eq, IH. split.
      * intros [-> [rest ->]]. by exists rest.
      * intros [rest Hrest]. injection Hrest as -> ->. eauto.
Qed.

(** [includes] finds exactly the substrings. *)
Lemma includes_spec (s t : jsstring) :
  includes s t = true ↔ ∃ before after, s = before ++ t ++ after.
Proof.
  induction s as [|d s IH]; simpl; rewrite orb_true_iff, startsWith_spec.
  - split.
    + intros [[rest ->]|?]; [|done]. by exists [], rest.
    + intros (before & after & Hs). left.
      symmetry in Hs. apply app_eq_nil in Hs as [-> Hs].
      apply app_eq_nil in Hs as [-> ->]. by exists [].
  - rewrite IH. split.
    + intros [[rest ->]|(before & after & ->)].
      * by exists [], rest.
      * by exists (d :: before), after.
    + intros ([|d' before] & after & Hs); simpl in Hs.
      * left. by exists after.
      * right. injection Hs as -> ->. by exists before, after.
Qed.

Lemma includes_refl (s : jsstring) : includes s s = true.
Proof. apply includes_spec. exists [], []. by rewrite app_nil_r. Qed.

Lemma trimStart_nil_iff (s : jsstring) :
  trimStart s = [] ↔ forallb isWhiteSpace s = true.
Proof.
  induction s as [|c s IH]; simpl; [done|].
  destruct (isWhiteSpace c); simpl; [done|]. split; discriminate.
Qed.

(** The trimmed string is empty exactly when the string is blank. *)
Lemma trim_nil_iff (s : jsstring) :
  trim s = [] ↔ forallb isWhiteSpace s = true.
Proof.
  unfold trim, trimEnd. rewrite <- trimStart_nil_iff. split.
  - intros Hs. apply (f_equal (@rev N)) in Hs. rewrite rev_involutive in Hs.
    simpl in Hs. destruct (trimStart s) as [|c s'] eqn:Hts; [done|].
    exfalso. assert (Hc : isWhiteSpace c = false).
    { clear Hs. induction s as [|d s IH]; simpl in Hts; [done|].
      destruct (isWhiteSpace d) eqn:Hd; [auto|]. by injection Hts as <- _. }
    apply trimStart_nil_iff in Hs. rewrite forallb_forall in Hs.
    specialize (Hs c). rewrite Hc in Hs. discriminate Hs.
    apply in_rev. rewrite rev_involutive. by left.
  - by intros ->.
Qed.

(** ** The filter *)

Section ArrayFilter.
Context (f : json → completion bool).

Lemma arrayFilter_cons_inv x l r :
  arrayFilter f (x :: l) = Normal r →
  ∃ b r0, f x = Normal b ∧ arrayFilter f l = Normal r0 ∧
          r = if b then x :: r0 else r0.
Proof.
  simpl. destruct (f x) as [b|e]; simpl; [|done].
  destruct (arrayFilter f l) as [r0|e]; simpl; [|done].
  intros [= <-]. eauto.
Qed.

(** The result keeps the order of the array. *)
Lemma arrayFilter_sublist l r : arrayFilter f l = Normal r → r `sublist_of` l.
Proof.
  revert r. induction l as [|x l IH]; intros r.
  - by intros [= <-].
  - intros (b & r0 & _ & Hr0 & ->)%arrayFilter_cons_inv.
    destruct b; [apply sublist_skip|apply sublist_cons]; auto.
Qed.

(** Every element of the array was tested, and the result holds the ones
    that passed. *)
Lemma arrayFilter_tested l r x :
  arrayFilter f l = Normal r → x ∈ l →
  ∃ b, f x = Normal b ∧ (b = true → x ∈ r).
Proof.
  revert r. induction l as [|y l IH]; intros r Hr Hx.
  - by apply elem_of_nil in Hx.
  - apply arrayFilter_cons_inv in Hr as (b & r0 & Hy & Hr0 & ->).
    apply elem_of_cons in Hx as [->|Hx].
    + exists b. split; [done|]. intros ->. by left.
    + destruct (IH r0 Hr0 Hx) as (b' & Hb' & Hin). exists b'.
      split; [done|]. intros Hb. destruct b; [right|]; auto.
Qed.

Lemma arrayFilter_passed l r x :
  arrayFilter f l = Normal r → x ∈ r → f x = Normal true.
Proof.
  revert r. induction l as [|y l IH]; intros r Hr Hx.
  - injection Hr as <-. by apply elem_of_nil in Hx.
  - apply arrayFilter_cons_inv in Hr as (b & r0 & Hy & Hr0 & ->).
    destruct b; [|eauto]. apply elem_of_cons in Hx as [->|Hx]; eauto.
Qed.

(** The result is the longest subsequence of passing elements. *)
Lemma arrayFilter_greatest l r r' :
  arrayFilter f l = Normal r → r' `sublist_of` l →
  Forall (λ x, f x = Normal true) r' → r' `sublist_of` r.
Proof.
  revert r r'. induction l as [|y l IH]; intros r r' Hr Hsub Hall.
  - injection Hr as <-. done.
  - apply arrayFilter_cons_inv in Hr as (b & r0 & Hy & Hr0 & ->).
    apply sublist_cons_r in Hsub as [Hsub|(r1 & -> & Hsub)].
    + destruct b; [apply sublist_cons|]; eauto.
    + apply Forall_cons in Hall as [Hy' Hall].
      rewrite Hy in Hy'. injection Hy' as ->.
      apply sublist_skip. eauto.
Qed.

(** The loop ends normally when the callback does on every element. *)
Lemma arrayFilter_total l :
  Forall (λ x, ∃ b, f x = Normal b) l → ∃ r, arrayFilter f l = Normal r.
Proof.
  induction 1 as [|x l [b Hb] _ [r Hr]]; simpl; [by eexists|].
  rewrite Hb, Hr. simpl. by eexists.
Qed.

(** One element on which the callback throws makes the loop throw. *)
Lemma arrayFilter_throws l :
  Exists (λ x, ∃ e, f x = Throw e) l → ∃ e, arrayFilter f l = Throw e.
Proof.
  induction 1 as [x l [e He]|x l _ [e He]]; simpl.
  - rewrite He. simpl. by eexists.
  - destruct (f x) as [b|e']; simpl; [|by eexists].
    rewrite He. simpl. by eexists.
Qed.

(** Filtering the result again changes nothing. *)
Lemma arrayFilter_again l r :
  arrayFilter f l = Normal r → arrayFilter f r = Normal r.
Proof.
  revert r. induction l as [|y l IH]; intros r Hr.
  - by injection Hr as <-.
  - apply arrayFilter_cons_inv in Hr as (b & r0 & Hy & Hr0 & ->).
    destruct b; [|eauto]. simpl. rewrite Hy, (IH r0 Hr0). done.
Qed.

End ArrayFilter.

Section FilterFacts.
Context `{CaseMapping}.
Import App.

Lemma containsCI_includes (text q : jsstring) :
  containsCI text q ↔ includes (toLowerCase text) (toLowerCase q) = true.
Proof. unfold containsCI. by rewrite includes_spec. Qed.

(** The callback on a record whose two fields are text. *)
Lemma itemMatches_text q e t d :
  textField "title" e = Some t → textField "description" e = Some d →
  itemMatches q e =
  Normal (includes (toLowerCase t) (toLowerCase q) ||
          includes (toLowerCase d) (toLowerCase q)).
Proof.
  unfold itemMatches, textField. destruct e as [| | | | |o]; try done.
  simpl. destruct (o !! str "title") as [[]|]; try done.
  destruct (o !! str "description") as [[]|]; try done.
  intros [= ->] [= ->]. simpl. by destruct (includes _ _).
Qed.

(** When the callback returns, it returns whether the entry satisfies the
    query. *)
Lemma itemMatches_normal q e b :
  itemMatches q e = Normal b → (b = true ↔ satisfies q e).
Proof.
  unfold itemMatches, satisfies, textField.
  destruct e as [| | | | |o]; try done. simpl.
  destruct (o !! str "title") as [[| | |t| |]|]; try done. simpl.
  destruct (includes (toLowerCase t) _) eqn:Ht.
  - intros [= <-]. split; [|done]. intros _. exists t.
    split; [by left|]. by apply containsCI_includes.
  - destruct (o !! str "description") as [[| | |d| |]|]; try done. simpl.
    intros [= <-]. split.
    + intros Hd. exists d. split; [by right|]. by apply containsCI_includes.
    + intros (text & [[= <-]|[= <-]] & Hc%containsCI_includes); congruence.
Qed.

Lemma itemMatches_entry q e : pageEntry e → ∃ b, itemMatches q e = Normal b.
Proof.
  intros [[t Ht] [d Hd]]. rewrite (itemMatches_text q e t d Ht Hd). eauto.
Qed.

Lemma itemMatches_unreadable q e :
  unreadable q e → ∃ err, itemMatches q e = Throw err.
Proof.
  unfold itemMatches, unreadable, textField.
  destruct e as [| | | | |o]; simpl; try by eauto.
  destruct (o !! str "title") as [[| | |t| |]|]; simpl; try by eauto.
  intros [?|[Hd Ht]]; [done|].
  destruct (includes (toLowerCase t) _) eqn:Hinc.
  - exfalso. apply (Ht t); [done|]. by apply containsCI_includes.
  - destruct (o !! str "description") as [[| | |d| |]|]; simpl; by eauto.
Qed.

Lemma filter_op_nonblank C q :
  trim q ≠ [] → filter_op C q = arrayFilter (itemMatches q) C.
Proof. unfold filter_op, filteredResults. simpl. by destruct (trim q). Qed.

End FilterFacts.

Section FilterClaims.
Context `{CaseMapping}.
Import App.

(** C1 (as amended): for every catalog [C] of page entries and every query
    [q] whose trimmed form is not empty, the filter returns exactly the
    entries of [C] whose title or description contains [q]
    case-insensitively: every returned entry satisfies the predicate, every
    entry of [C] that satisfies it is returned, and the result is a
    subsequence of [C] (catalog order), the greatest one made of satisfying
    entries. *)
Theorem filter_exact (C : list json) (q : jsstring) :
  trim q ≠ [] → Forall pageEntry C →
  ∃ r, filter_op C q = Normal r ∧
       Forall (satisfies q) r ∧
       (∀ e, e ∈ C → satisfies q e → e ∈ r) ∧
       r `sublist_of` C ∧
       (∀ r', r' `sublist_of` C → Forall (satisfies q) r' → r' `sublist_of` r).
Proof.
  intros Hq HC. rewrite (filter_op_nonblank C q Hq).
  destruct (arrayFilter_total (itemMatches q) C) as [r Hr].
  { eapply Forall_impl; [exact HC|]. intros e. apply itemMatches_entry. }
  exists r. split; [done|]. repeat split.
  - apply Forall_forall. intros e He.
    apply (itemMatches_normal q e true); [|done].
    by apply (arrayFilter_passed _ C r).
  - intros e He Hsat.
    destruct (arrayFilter_tested _ C r e Hr He) as (b & Hb & Hin).
    apply Hin. by apply (itemMatches_normal q e b).
  - by apply (arrayFilter_sublist (itemMatches q)).
  - intros r' Hsub Hall. apply (arrayFilter_greatest _ C r r' Hr Hsub).
    apply Forall_forall. intros e He.
    assert (HeC : e ∈ C) by (by eapply elem_of_sublist).
    destruct (arrayFilter_tested _ C r e Hr HeC) as (b & Hb & _).
    rewrite Hb. f_equal. apply (itemMatches_normal q e b Hb).
    by apply (proj1 (Forall_forall _ _) Hall).
Qed.

(** C2: when the trimmed query is the empty string the filter returns the
    empty sequence, whatever the catalog holds. *)
Theorem filter_blank (d : json) (q : jsstring) :
  trim q = [] → filteredResults {| query := q; data := d |} = Normal [].
Proof. unfold filteredResults. simpl. by intros ->. Qed.

(** C3: the filter is idempotent: filtering its result by the same query
    gives the same result (and an exception of the first pass is the
    outcome of both sides). *)
Theorem filter_idempotent (C : list json) (q : jsstring) :
  filter_op C q ≫= (λ r, filter_op r q) = filter_op C q.
Proof.
  unfold filter_op, filteredResults. simpl.
  destruct (trim q) as [|c t]; simpl; [done|].
  destruct (arrayFilter (itemMatches q) C) as [r|e] eqn:Hr; simpl; [|done].
  by apply (arrayFilter_again _ C).
Qed.

(** C9 (as amended): on a catalog whose entries all have text for title and
    description the filter never throws; with a query that is not blank, a
    catalog holding an entry whose title is absent or no text, or whose
    title does not contain the query and whose description is absent or no
    text, makes the filter throw. *)
Theorem filter_total_or_throws (C : list json) (q : jsstring) :
  (Forall pageEntry C → ∃ r, filter_op C q = Normal r) ∧
  (trim q ≠ [] → Exists (unreadable q) C → ∃ err, filter_op C q = Throw err).
Proof.
  split.
  - intros HC. destruct (trim q) as [|c t] eqn:Hq.
    + exists []. unfold filter_op, filteredResults. simpl. by rewrite Hq.
    + rewrite filter_op_nonblank by by rewrite Hq.
      apply arrayFilter_total. eapply Forall_impl; [exact HC|].
      intros e. apply itemMatches_entry.
  - intros Hq HC. rewrite (filter_op_nonblank C q Hq).
    apply arrayFilter_throws. eapply Exists_impl; [exact HC|].
    intros e. apply itemMatches_unreadable.
Qed.

End FilterClaims.

(** On the scenario of the specification, query [arc] returns both
    entries (a title match, then a description match), in that order. *)
Example filter_scenario :
  App.filter_op (H := asciiCase) scenario (str "arc") = Normal scenario.
Proof. vm_compute. reflexivity. Qed.

Lemma filter_exact_witness :
  trim (str "arc") ≠ [] ∧ Forall pageEntry scenario ∧
  ∃ r, App.filter_op (H := asciiCase) scenario (str "arc") = Normal r ∧
       Forall (satisfies (H := asciiCase) (str "arc")) r ∧
       (∀ e, e ∈ scenario → satisfies (H := asciiCase) (str "arc") e → e ∈ r) ∧
       r `sublist_of` scenario ∧
       (∀ r', r' `sublist_of` scenario →
              Forall (satisfies (H := asciiCase) (str "arc")) r' →
              r' `sublist_of` r).
Proof.
  assert (Hq : trim (str "arc") ≠ []) by (vm_compute; discriminate).
  assert (HC : Forall pageEntry scenario) by page_entries.
  split; [exact Hq|]. split; [exact HC|].
  exact (filter_exact (H := asciiCase) scenario (str "arc") Hq HC).
Defined.

(** C1 as stated, with "non-empty query", fails on a query that is not
    empty but blank: the title [Arc Welding] contains the query made of one
    space, and nothing is returned. *)
Lemma filter_blank_query_counterexample :
  ¬ (str " " ≠ [] → Forall pageEntry scenario →
     ∃ r, App.filter_op (H := asciiCase) scenario (str " ") = Normal r ∧
          Forall (satisfies (H := asciiCase) (str " ")) r ∧
          (∀ e, e ∈ scenario → satisfies (H := asciiCase) (str " ") e → e ∈ r) ∧
          r `sublist_of` scenario ∧
          (∀ r', r' `sublist_of` scenario →
                 Forall (satisfies (H := asciiCase) (str " ")) r' →
                 r' `sublist_of` r)).
Proof.
  intros Hclaim. destruct Hclaim as (r & Hr & _ & Hall & _).
  - vm_compute. discriminate.
  - page_entries.
  - assert (Hnil : r = []).
    { vm_compute in Hr. by injection Hr as <-. }
    subst r. apply (elem_of_nil (entry "Arc Welding" "...")).
    apply Hall; [by left|].
    exists (str "Arc Welding"). split; [left; vm_compute; reflexivity|].
    apply containsCI_includes. vm_compute. reflexivity.
Qed.

Lemma filter_blank_witness :
  trim (str "  ") = [] ∧
  App.filteredResults (H := asciiCase)
    {| App.query := str "  "; App.data := JArr scenario |} = Normal [].
Proof.
  assert (Hq : trim (str "  ") = []) by (vm_compute; reflexivity).
  split; [exact Hq|].
  exact (filter_blank (H := asciiCase) (JArr scenario) (str "  ") Hq).
Defined.

(** C9 as stated fails on an entry without description whose title contains
    the query: the description is never read and the entry is returned. *)
Lemma filter_missing_description_counterexample :
  ¬ (trim (str "arc") ≠ [] →
     Exists (λ e, textField "title" e = None ∨ textField "description" e = None)
            [titleOnly "Arc Welding"] →
     ∃ err, App.filter_op (H := asciiCase) [titleOnly "Arc Welding"] (str "arc")
            = Throw err).
Proof.
  intros Hclaim. destruct Hclaim as [err Herr].
  - vm_compute. discriminate.
  - apply Exists_cons_hd. right. vm_compute. reflexivity.
  - vm_compute in Herr. discriminate Herr.
Qed.

Lemma filter_total_or_throws_witness :
  (Forall pageEntry scenario ∧
   ∃ r, App.filter_op (H := asciiCase) scenario (str "arc") = Normal r) ∧
  (trim (str "prep") ≠ [] ∧
   Exists (unreadable (H := asciiCase) (str "prep")) [titleOnly "Arc Welding"] ∧
   ∃ err, App.filter_op (H := asciiCase) [titleOnly "Arc Welding"] (str "prep")
          = Throw err).
Proof.
  assert (HC : Forall pageEntry scenario) by page_entries.
  assert (Hq : trim (str "prep") ≠ []) by (vm_compute; discriminate).
  assert (Hbad : Exists (unreadable (H := asciiCase) (str "prep"))
                        [titleOnly "Arc Welding"]).
  { apply Exists_cons_hd. right. split; [vm_compute; reflexivity|].
    intros t Ht Hc. apply containsCI_includes in Hc.
    vm_compute in Ht. injection Ht as <-. vm_compute in Hc. discriminate Hc. }
  split.
  - split; [exact HC|].
    exact (proj1 (filter_total_or_throws (H := asciiCase) scenario (str "arc")) HC).
  - split; [exact Hq|]. split; [exact Hbad|].
    exact (proj2 (filter_total_or_throws (H := asciiCase)
                    [titleOnly "Arc Welding"] (str "prep")) Hq Hbad).
Defined.

(** C10: trimming only decides the empty case. For a query that is not
    blank and carries white space at an end, the entries returned are the
    ones whose title or description contains the query as typed, white
    space included; and matching with the trimmed query would differ: on an
    entry titled [Metal arc], the query [arc] followed by a space returns
    nothing, while the trimmed query returns the entry. *)
Theorem filter_untrimmed :
  (∀ (H : CaseMapping) (C : list json) (q : jsstring),
     trim q ≠ [] → q ≠ trim q → Forall pageEntry C →
     ∃ r, App.filter_op C q = Normal r ∧ ∀ e, e ∈ r ↔ e ∈ C ∧ satisfies q e) ∧
  (trim (str "arc ") = str "arc" ∧
   App.filter_op (H := asciiCase) [entry "Metal arc" "prep"] (str "arc ")
     = Normal [] ∧
   App.filter_op (H := asciiCase) [entry "Metal arc" "prep"] (trim (str "arc "))
     = Normal [entry "Metal arc" "prep"]).
Proof.
  split.
  - intros H C q Hq _ HC.
    rewrite (filter_op_nonblank C q Hq).
    destruct (arrayFilter_total (App.itemMatches q) C) as [r Hr].
    { eapply Forall_impl; [exact HC|]. intros e. apply itemMatches_entry. }
    exists r. split; [done|]. intros e. split.
    + intros He. split.
      * eapply elem_of_sublist; [exact He|].
        by apply (arrayFilter_sublist (App.itemMatches q)).
      * apply (itemMatches_normal q e true); [|done].
        by apply (arrayFilter_passed _ C r).
    + intros [He Hsat].
      destruct (arrayFilter_tested _ C r e Hr He) as (b & Hb & Hin).
      apply Hin. by apply (itemMatches_normal q e b).
  - repeat split; vm_compute; reflexivity.
Qed.

Lemma filter_untrimmed_witness :
  trim (str " arc") ≠ [] ∧ str " arc" ≠ trim (str " arc") ∧
  Forall pageEntry scenario ∧
  ∃ r, App.filter_op (H := asciiCase) scenario (str " arc") = Normal r ∧
       ∀ e, e ∈ r ↔ e ∈ scenario ∧ satisfies (H := asciiCase) (str " arc") e.
Proof.
  assert (Hq : trim (str " arc") ≠ []) by (vm_compute; discriminate).
  assert (Hw : str " arc" ≠ trim (str " arc")) by (vm_compute; discriminate).
  assert (HC : Forall pageEntry scenario) by page_entries.
  split; [exact Hq|]. split; [exact Hw|]. split; [exact HC|].
  exact (proj1 filter_untrimmed asciiCase scenario (str " arc") Hq Hw HC).
Defined.

(** ** Loading the catalog *)

Section LoadFacts.
Import App.

Lemma step_cases (s : page) (i : input) :
  step s i = s
  ∨ (i = Created ∧ loading s = Idle ∧
     step s i = {| view := view s;
                   trace := trace s ++ [Fetch (str "js/pages.json")];
                   loading := AwaitingResponse |})
  ∨ (∃ q, i = Typed q ∧
     step s i = {| view := {| query := q; data := data (view s) |};
                   trace := trace s; loading := loading s |})
  ∨ (∃ r, i = Responded (Normal r) ∧ loading s = AwaitingResponse ∧
     ok r = true ∧
     step s i = {| view := view s; trace := trace s; loading := AwaitingBody |})
  ∨ (∃ d, i = BodyParsed (Normal d) ∧ loading s = AwaitingBody ∧
     step s i = {| view := {| query := query (view s); data := d |};
                   trace := trace s ++ [ConsoleLog (str "Data loaded successfully:") d];
                   loading := Ready |})
  ∨ (∃ e, (loading s = AwaitingResponse ∧
           (i = Responded (Throw e) ∨
            ∃ r, i = Responded (Normal r) ∧ ok r = false ∧
                 e = Error (str "Network response was not ok " ++ statusText r))
           ∨ loading s = AwaitingBody ∧ i = BodyParsed (Throw e)) ∧
     step s i = {| view := view s;
                   trace := trace s ++ [ConsoleError (str "Error loading pages:") e];
                   loading := LoadFailed |}).
Proof.
  destruct s as [v t p]. destruct i as [|q|[r|e]|[d|e]], p;
    try (left; reflexivity); simpl.
  - right; left. done.
  - do 2 right; left. by exists q.
  - do 2 right; left. by exists q.
  - do 2 right; left. by exists q.
  - do 2 right; left. by exists q.
  - do 2 right; left. by exists q.
  - unfold step, checkResponse; simpl. destruct (ok r) eqn:Hok; simpl.
    + do 3 right; left. by exists r.
    + do 5 right. eexists. split; [left; split; [done|right; by exists r]|done].
  - do 5 right. exists e. split; [left; auto|done].
  - do 4 right; left. by exists d.
  - do 5 right. exists e. split; [right; auto|done].
Qed.

Lemma step_unpopulated s i : unpopulated s → unpopulated (step s i).
Proof.
  unfold unpopulated. intros Hs.
  destruct (step_cases s i) as
    [->|[(_ & Hp & ->)|[(q & _ & ->)|[(r & _ & Hp & _ & ->)|
     [(d & _ & Hp & ->)|(e & Hp & ->)]]]]]; simpl; try done.
  - intros _. apply Hs. by rewrite Hp.
  - intros _. apply Hs. by rewrite Hp.
  - intros _. apply Hs. destruct Hp as [[-> _]|[-> _]]; done.
Qed.

Lemma step_silent s i : silent s → silent (step s i).
Proof.
  unfold silent. intros Hs m.
  destruct (step_cases s i) as
    [->|[(_ & _ & ->)|[(q & _ & ->)|[(r & _ & _ & _ & ->)|
     [(d & _ & _ & ->)|(e & _ & ->)]]]]]; simpl; try done;
    rewrite elem_of_app, list_elem_of_singleton; intros [?|?]; try done;
    by eapply Hs.
Qed.

Lemma step_failed s i : loading s = LoadFailed → loading (step s i) = LoadFailed.
Proof.
  intros Hs.
  destruct (step_cases s i) as
    [->|[(_ & Hp & ->)|[(q & _ & ->)|[(r & _ & Hp & _ & ->)|
     [(d & _ & Hp & ->)|(e & Hp & ->)]]]]]; simpl; try done; congruence.
Qed.

Lemma run_snoc s inputs i : run s (inputs ++ [i]) = step (run s inputs) i.
Proof. unfold run. by rewrite foldl_app. Qed.

Lemma run_unpopulated s inputs : unpopulated s → unpopulated (run s inputs).
Proof.
  induction inputs as [|i inputs IH] using rev_ind; [done|].
  intros Hs. rewrite run_snoc. by apply step_unpopulated, IH.
Qed.

Lemma run_silent s inputs : silent s → silent (run s inputs).
Proof.
  induction inputs as [|i inputs IH] using rev_ind; [done|].
  intros Hs. rewrite run_snoc. by apply step_silent, IH.
Qed.

Lemma run_failed s inputs : loading s = LoadFailed → loading (run s inputs) = LoadFailed.
Proof.
  induction inputs as [|i inputs IH] using rev_ind; [done|].
  intros Hs. rewrite run_snoc. by apply step_failed, IH.
Qed.

Lemma start_unpopulated : unpopulated start.
Proof. by intros _. Qed.

Lemma start_silent : silent start.
Proof. intros m Hm. by apply elem_of_nil in Hm. Qed.

End LoadFacts.

Section LoadClaims.
Import App.

Lemma filteredResults_empty_catalog `{CaseMapping} (v : vm) :
  data v = JArr [] → filteredResults v = Normal [].
Proof. unfold filteredResults. intros ->. by destruct (trim (query v)). Qed.

Lemma failed_step (s : page) (i : input) (e : exn) :
  unpopulated s → silent s → loading s ≠ Ready →
  step s i = {| view := view s;
                trace := trace s ++ [ConsoleError (str "Error loading pages:") e];
                loading := LoadFailed |} →
  trace (step s i) = trace s ++ [ConsoleError (str "Error loading pages:") e] ∧
  loading (step s i) = LoadFailed ∧
  (∀ m, Alert m ∉ trace (step s i)) ∧
  ∀ more, data (view (run (step s i) more)) = JArr [].
Proof.
  intros Hdata Hsilent Hp Hstep. rewrite Hstep. simpl. repeat split.
  - intros m [Hm|Hm%list_elem_of_singleton]%elem_of_app; [|done].
    by apply (Hsilent m).
  - intros more. apply run_unpopulated.
    + intros _. simpl. by apply Hdata.
    + by rewrite run_failed.
Qed.

(** C4: a response whose status is not a success makes the chain throw an
    error that carries the status text; the rejection handler logs it to the
    console, which is the only host call made; the catalog stays the empty
    array from then on, and no alert is ever shown. A failure to parse the
    body is handled by the same handler, with the same outcome. *)
Theorem load_failure (inputs : list input) :
  let s := run start inputs in
  (∀ r, loading s = AwaitingResponse → ok r = false →
     let s' := step s (Responded (Normal r)) in
     trace s' = trace s ++
       [ConsoleError (str "Error loading pages:")
          (Error (str "Network response was not ok " ++ statusText r))] ∧
     loading s' = LoadFailed ∧
     (∀ m, Alert m ∉ trace s') ∧
     ∀ more, data (view (run s' more)) = JArr []) ∧
  (∀ e, loading s = AwaitingBody →
     let s' := step s (BodyParsed (Throw e)) in
     trace s' = trace s ++ [ConsoleError (str "Error loading pages:") e] ∧
     loading s' = LoadFailed ∧
     (∀ m, Alert m ∉ trace s') ∧
     ∀ more, data (view (run s' more)) = JArr []).
Proof.
  intros s.
  assert (Hdata : unpopulated s) by apply run_unpopulated, start_unpopulated.
  assert (Hsilent : silent s) by apply run_silent, start_silent.
  split.
  - intros r Hp Hok s'. apply failed_step; [done|done|by rewrite Hp|].
    unfold step, checkResponse. rewrite Hp. simpl. rewrite Hok. done.
  - intros e Hp s'. apply failed_step; [done|done|by rewrite Hp|].
    unfold step. rewrite Hp. done.
Qed.

(** C6: as long as the load has not succeeded (it is still in progress, or
    it has failed), the catalog is empty and the filter yields the empty
    sequence for every query; typing is accepted in every phase; and a
    failed load stays failed, whatever happens next. *)
Theorem loading_filter_empty `{CaseMapping} (inputs : list input) :
  let s := run start inputs in
  loading s ≠ Ready →
  filteredResults (view s) = Normal [] ∧
  (∀ q, let s' := step s (Typed q) in
        query (view s') = q ∧ loading s' = loading s ∧
        filteredResults (view s') = Normal []) ∧
  (loading s = LoadFailed →
   ∀ more, loading (run s more) = LoadFailed ∧
           filteredResults (view (run s more)) = Normal []).
Proof.
  intros s Hp.
  assert (Hdata : unpopulated s) by apply run_unpopulated, start_unpopulated.
  split; [|split].
  - by apply filteredResults_empty_catalog, Hdata.
  - intros q s'. subst s'. pose proof (Hdata Hp) as Hd.
    unfold step. destruct (loading s) eqn:Hl; simpl;
      rewrite ?Hl; repeat split; try done;
      by apply filteredResults_empty_catalog.
  - intros Hf more. split; [by apply run_failed|].
    apply filteredResults_empty_catalog.
    apply (run_unpopulated s more Hdata). by rewrite run_failed.
Qed.

(** A body that parses is logged and becomes the catalog; the load is
    then complete. *)
Theorem load_success (s : page) (d : json) :
  loading s = AwaitingBody →
  step s (BodyParsed (Normal d)) =
  {| view := {| query := query (view s); data := d |};
     trace := trace s ++ [ConsoleLog (str "Data loaded successfully:") d];
     loading := Ready |}.
Proof. intros Hp. unfold step. by rewrite Hp. Qed.

(** A fetch that rejects (no response at all) ends in the same handler
    as a bad status: the reason is logged and the load has failed. *)
Theorem fetch_rejected (s : page) (e : exn) :
  loading s = AwaitingResponse →
  step s (Responded (Throw e)) =
  {| view := view s;
     trace := trace s ++ [ConsoleError (str "Error loading pages:") e];
     loading := LoadFailed |}.
Proof. intros Hp. unfold step. by rewrite Hp. Qed.

End LoadClaims.

Lemma load_failure_witness :
  (App.loading (App.run App.start [App.Created]) = App.AwaitingResponse ∧
   App.ok (App.Response false (str "Not Found")) = false ∧
   App.trace (App.step (App.run App.start [App.Created])
                (App.Responded (Normal (App.Response false (str "Not Found")))))
   = [Fetch (str "js/pages.json");
      ConsoleError (str "Error loading pages:")
        (Error (str "Network response was not ok Not Found"))]) ∧
  (App.loading
     (App.run App.start
        [App.Created; App.Responded (Normal (App.Response true (str "OK")))])
   = App.AwaitingBody ∧
   ∀ more,
     App.data (App.view (App.run
       (App.step
          (App.run App.start
             [App.Created; App.Responded (Normal (App.Response true (str "OK")))])
          (App.BodyParsed (Throw SyntaxError))) more)) = JArr []).
Proof.
  split.
  - split; [reflexivity|]. split; [reflexivity|].
    exact (proj1 (proj1 (load_failure [App.Created])
                    (App.Response false (str "Not Found")) eq_refl eq_refl)).
  - split; [reflexivity|].
    exact (proj2 (proj2 (proj2 (proj2 (load_failure
             [App.Created; App.Responded (Normal (App.Response true (str "OK")))])
             SyntaxError eq_refl)))).
Defined.

Lemma loading_filter_empty_witness :
  App.loading (App.run App.start [App.Created; App.Typed (str "arc")])
    ≠ App.Ready ∧
  App.filteredResults (H := asciiCase)
    (App.view (App.run App.start [App.Created; App.Typed (str "arc")]))
    = Normal [].
Proof.
  assert (Hp : App.loading (App.run App.start [App.Created; App.Typed (str "arc")])
               ≠ App.Ready) by (vm_compute; discriminate).
  split; [exact Hp|].
  exact (proj1 (loading_filter_empty (H := asciiCase)
                  [App.Created; App.Typed (str "arc")] Hp)).
Defined.

(** ** The clipboard button *)

Section ClipboardFacts.
Import Codes.

Lemma count_app f (h1 h2 : list entry) :
  count f (h1 ++ h2) = count f h1 + count f h2.
Proof. unfold count. by rewrite List.filter_app, length_app. Qed.

Lemma count_positive f (h : list entry) :
  0 < count f h → ∃ x, x ∈ h ∧ f x = true.
Proof.
  unfold count. induction h as [|x h IH]; simpl; [lia|].
  destruct (f x) eqn:Hx.
  - intros _. exists x. split; [by left|done].
  - intros (y & Hy & Hfy)%IH. exists y. split; [by right|done].
Qed.

Lemma ordered_app h1 h2 : ordered h1 → ordered h2 → ordered (h1 ++ h2).
Proof.
  intros H1 H2 k. rewrite take_app, !count_app.
  specialize (H1 k). specialize (H2 (k - length h1)). lia.
Qed.

(** A turn appends to the history, and what it appends is ordered: an alert
    comes only in the turn of a settlement, after it. *)
Lemma step_history s i :
  ∃ new, history (step s i) = history s ++ new ∧ ordered new.
Proof.
  assert (Hshort : ∀ new : list entry,
            (∀ k, k ≤ length new →
                  count isAlert (take k new) ≤ count isSettlement (take k new)) →
            ordered new).
  { intros new Hnew k. destruct (decide (k ≤ length new)); [auto|].
    rewrite take_ge by lia. rewrite <- (take_ge new (length new)) by lia. auto. }
  destruct i as [code clipboard|n outcome]; unfold step.
  - destruct code as [text|], clipboard; simpl; eexists;
      (split; [by rewrite <- ?app_assoc|]); apply Hshort;
      intros [|[|[|k]]]; unfold count; simpl; lia.
  - destruct (bool_decide (n ∈ pending s)).
    + destruct outcome as [[]|err]; simpl; eexists;
        (split; [by rewrite <- ?app_assoc|]); apply Hshort;
        intros [|[|[|[|k]]]]; unfold count; simpl; lia.
    + exists []. split; [by rewrite app_nil_r|]. by intros [|k].
Qed.

Lemma run_snoc' s inputs i : run s (inputs ++ [i]) = step (run s inputs) i.
Proof. unfold run. by rewrite foldl_app. Qed.

Lemma run_ordered inputs : ordered (history (run start inputs)).
Proof.
  induction inputs as [|i inputs IH] using rev_ind.
  - by intros [|k].
  - rewrite run_snoc'.
    destruct (step_history (run start inputs) i) as (new & -> & Hnew).
    by apply ordered_app.
Qed.

End ClipboardFacts.

Section ClipboardClaims.
Import Codes.

(** C5: the settlement of a pending write that resolves adds to the history
    one alert, the success message, and no console entry; one that rejects
    adds one console error, with the reason, and then one alert, the
    manual-copy message. *)
Theorem clipboard_outcomes (s : page) (n : nat) :
  n ∈ pending s →
  (let i := WriteSettled n (Normal tt) in
   produced s i = [Happened i; Did (Alert copiedMessage)] ∧
   count isAlert (produced s i) = 1 ∧ count isLog (produced s i) = 0) ∧
  (∀ err,
     let i := WriteSettled n (Throw err) in
     produced s i =
       [Happened i; Did (ConsoleError failureLabel err);
        Did (Alert manualMessage)] ∧
     count isAlert (produced s i) = 1 ∧ count isLog (produced s i) = 1).
Proof.
  intros Hn.
  assert (Hdrop : ∀ h new : list entry, drop (length h) (h ++ new) = new).
  { intros h new. by rewrite drop_app_length. }
  split; [|intros err]; intros i; subst i; unfold produced, step;
    rewrite (bool_decide_eq_true_2 _ Hn); simpl;
    rewrite <- ?app_assoc; simpl; rewrite Hdrop; done.
Qed.

(** C8: in every history of the page, an alert is preceded by more
    settlements than alerts: the notification of a copy comes after the
    write has resolved or rejected, never before. *)
Theorem alert_after_settlement (inputs : list input)
    (before after : list entry) (m : jsstring) :
  history (run start inputs) = before ++ Did (Alert m) :: after →
  count isAlert before < count isSettlement before ∧
  ∃ n outcome, Happened (WriteSettled n outcome) ∈ before.
Proof.
  intros Hh. pose proof (run_ordered inputs (S (length before))) as Hk.
  rewrite Hh in Hk.
  replace (before ++ Did (Alert m) :: after)
    with ((before ++ [Did (Alert m)]) ++ after) in Hk
    by by rewrite <- app_assoc.
  rewrite take_app_le, take_ge in Hk by (rewrite length_app; simpl; lia).
  rewrite !count_app in Hk. simpl in Hk.
  assert (Hlt : count isAlert before < count isSettlement before)
    by (unfold count in *; simpl in *; lia).
  split; [done|].
  destruct (count_positive isSettlement before) as (x & Hx & Hs); [lia|].
  destruct x as [[|n outcome]|]; try done. by exists n, outcome.
Qed.

(** X12: a click on a page where [navigator.clipboard] is undefined, or
    where [#myCode] is missing, throws out of the listener before any write
    is made: the script shows no alert and logs nothing. *)
Theorem click_throws (s : page) (code : option jsstring) (clipboard : bool) :
  code = None ∨ clipboard = false →
  produced s (Click code clipboard) =
    [Happened (Click code clipboard); Did (Uncaught TypeError)] ∧
  pending (step s (Click code clipboard)) = pending s.
Proof.
  assert (Hdrop : ∀ h new : list entry, drop (length h) (h ++ new) = new).
  { intros h new. by rewrite drop_app_length. }
  intros Hc. unfold produced, step.
  destruct code as [text|], clipboard, Hc as [?|?]; try done; simpl;
    rewrite <- ?app_assoc; simpl; by rewrite Hdrop.
Qed.

End ClipboardClaims.

Lemma clipboard_outcomes_witness :
  0 ∈ Codes.pending
        (Codes.run Codes.start [Codes.Click (Some (str "x = 1")) true]) ∧
  produced (Codes.run Codes.start [Codes.Click (Some (str "x = 1")) true])
    (Codes.WriteSettled 0 (Normal tt))
  = [Codes.Happened (Codes.WriteSettled 0 (Normal tt));
     Codes.Did (Alert Codes.copiedMessage)].
Proof.
  assert (Hn : 0 ∈ Codes.pending
                     (Codes.run Codes.start [Codes.Click (Some (str "x = 1")) true]))
    by (vm_compute; by left).
  split; [exact Hn|].
  exact (proj1 (proj1 (clipboard_outcomes _ 0 Hn))).
Defined.

Lemma alert_after_settlement_witness :
  Codes.history
    (Codes.run Codes.start
       [Codes.Click (Some (str "x = 1")) true; Codes.WriteSettled 0 (Normal tt)])
  = [Codes.Happened (Codes.Click (Some (str "x = 1")) true);
     Codes.Did (ClipboardWriteText (str "x = 1"));
     Codes.Happened (Codes.WriteSettled 0 (Normal tt))]
    ++ Codes.Did (Alert Codes.copiedMessage) :: [] ∧
  Codes.count Codes.isAlert
    [Codes.Happened (Codes.Click (Some (str "x = 1")) true);
     Codes.Did (ClipboardWriteText (str "x = 1"));
     Codes.Happened (Codes.WriteSettled 0 (Normal tt))]
  < Codes.count Codes.isSettlement
      [Codes.Happened (Codes.Click (Some (str "x = 1")) true);
       Codes.Did (ClipboardWriteText (str "x = 1"));
       Codes.Happened (Codes.WriteSettled 0 (Normal tt))].
Proof.
  assert (Hh : Codes.history
    (Codes.run Codes.start
       [Codes.Click (Some (str "x = 1")) true; Codes.WriteSettled 0 (Normal tt)])
  = [Codes.Happened (Codes.Click (Some (str "x = 1")) true);
     Codes.Did (ClipboardWriteText (str "x = 1"));
     Codes.Happened (Codes.WriteSettled 0 (Normal tt))]
    ++ Codes.Did (Alert Codes.copiedMessage) :: []) by reflexivity.
  split; [exact Hh|].
  exact (proj1 (alert_after_settlement _ _ _ _ Hh)).
Defined.

(** ** The rewrite rules *)

Section RewriteClaims.
Import Htaccess.










End RewriteClaims.



(** An escape that is valid is not kept: the location holds the unescaped
    path. *)
Example https_redirect_unescapes :
  Htaccess.handle (Htaccess.Site (λ _, None) (λ _, false))
    (Htaccess.Request false "www.weldingengineer.org" "/%41nnex/?x=%41")
  = Some (Htaccess.Redirect 301 "https://www.weldingengineer.org/Annex/?x=%41").
Proof. reflexivity. Qed.

(** An escaped question mark puts a [?] in the expanded substitution: the
    model gives no answer there. *)
Example https_redirect_escaped_question :
  Htaccess.handle (Htaccess.Site (λ _, None) (λ _, false))
    (Htaccess.Request false "www.weldingengineer.org" "/a%3Fb?x=1")
  = None.
Proof. reflexivity. Qed.

Lemma click_throws_witness :
  (Some (str "x = 1") = None ∨ false = false) ∧
  produced Codes.start (Codes.Click (Some (str "x = 1")) false)
  = [Codes.Happened (Codes.Click (Some (str "x = 1")) false);
     Codes.Did (Uncaught TypeError)].
Proof.
  split; [by right|].
  exact (proj1 (click_throws Codes.start (Some (str "x = 1")) false
                  (or_intror eq_refl))).
Defined.

(** * Further properties of the scripts *)

(** ** How the filter composes *)

Section ArrayFilterAlgebra.

Lemma arrayFilter_app (f : json → completion bool) (l1 l2 : list json) :
  arrayFilter f (l1 ++ l2) =
  r1 ← arrayFilter f l1; r2 ← arrayFilter f l2; Normal (r1 ++ r2).
Proof.
  induction l1 as [|x l1 IH]; simpl.
  - by destruct (arrayFilter f l2).
  - destruct (f x) as [b|e]; simpl; [|done]. rewrite IH.
    destruct (arrayFilter f l1) as [r1|e]; simpl; [|done].
    destruct (arrayFilter f l2) as [r2|e]; simpl; [|done].
    by destruct b.
Qed.

Lemma arrayFilter_ext (f g : json → completion bool) (l : list json) :
  (∀ x, f x = g x) → arrayFilter f l = arrayFilter g l.
Proof.
  intros Hfg. induction l as [|x l IH]; simpl; [done|]. by rewrite Hfg, IH.
Qed.

Lemma arrayFilter_fmap (f : json → completion bool) (g : json → json)
    (l : list json) :
  (∀ x, f (g x) = f x) →
  arrayFilter f (fmap (M := list) g l) =
  r ← arrayFilter f l; Normal (fmap (M := list) g r).
Proof.
  intros Hg. induction l as [|x l IH]; [done|].
  rewrite fmap_cons. cbn [arrayFilter]. rewrite Hg, IH.
  destruct (f x) as [b|e]; simpl; [|done].
  destruct (arrayFilter f l) as [r|e]; simpl; [|done]. by destruct b.
Qed.

Lemma filter_bool_comm (p1 p2 : json → bool) (l : list json) :
  List.filter p1 (List.filter p2 l) = List.filter p2 (List.filter p1 l).
Proof.
  induction l as [|x l IH]; simpl; [done|].
  destruct (p1 x) eqn:H1, (p2 x) eqn:H2; simpl; rewrite ?H1, ?H2, IH; done.
Qed.


Lemma filter_bool_Forall (P : json → Prop) (p : json → bool) (l : list json) :
  Forall P l → Forall P (List.filter p l).
Proof.
  induction 1 as [|x l Hx _ IH]; simpl; [done|].
  destruct (p x); [by constructor|done].
Qed.

End ArrayFilterAlgebra.

Section FilterComposition.
Context `{CaseMapping}.
Import App.

(** On a page entry the callback returns, and returns [hits]. *)
Lemma itemMatches_hits q e : pageEntry e → itemMatches q e = Normal (hits q e).
Proof.
  intros [[t Ht] [d Hd]]. unfold hits. rewrite Ht, Hd.
  by apply itemMatches_text.
Qed.

Lemma arrayFilter_entries q C :
  Forall pageEntry C →
  arrayFilter (itemMatches q) C = Normal (List.filter (hits q) C).
Proof.
  induction 1 as [|e C He _ IH]; simpl; [done|].
  rewrite (itemMatches_hits q e He), IH. simpl. by destruct (hits q e).
Qed.

(** On a catalog of page entries the computed property is the list filter. *)
Lemma filter_op_entries q C :
  Forall pageEntry C → filter_op C q = Normal (pureFilter q C).
Proof.
  intros HC. unfold filter_op, filteredResults, pureFilter. simpl.
  destruct (trim q); [done|]. by apply arrayFilter_entries.
Qed.

Lemma pureFilter_entries q C : Forall pageEntry C → Forall pageEntry (pureFilter q C).
Proof.
  intros HC. unfold pureFilter. destruct (trim q); [done|].
  by apply filter_bool_Forall.
Qed.

(** X1: every entry is judged on its own: the result on a catalog made of
    two parts is the result on the first part followed by the result on the
    second, and an exception of either part is the exception of the whole,
    the first part first. *)
Theorem filter_concat (C1 C2 : list json) (q : jsstring) :
  filter_op (C1 ++ C2) q =
  r1 ← filter_op C1 q; r2 ← filter_op C2 q; Normal (r1 ++ r2).
Proof.
  unfold filter_op, filteredResults. simpl.
  destruct (trim q); [done|]. apply arrayFilter_app.
Qed.

(** X2: the letter case of the query does not matter: two queries that are
    not blank and have the same lowercase form give the same outcome on
    every catalog. *)
Theorem filter_query_case (C : list json) (q q' : jsstring) :
  toLowerCase q = toLowerCase q' → trim q ≠ [] → trim q' ≠ [] →
  filter_op C q = filter_op C q'.
Proof.
  intros Hlow Hq Hq'. rewrite !filter_op_nonblank by done.
  apply arrayFilter_ext. intros e. unfold itemMatches. by rewrite Hlow.
Qed.


(** X4: two searches commute: on a catalog of page entries, filtering by
    [q1] and then the result by [q2] gives what filtering by [q2] and then
    by [q1] gives. *)
Theorem filter_commutes (C : list json) (q1 q2 : jsstring) :
  Forall pageEntry C →
  (filter_op C q1 ≫= λ r, filter_op r q2) =
  (filter_op C q2 ≫= λ r, filter_op r q1).
Proof.
  intros HC. rewrite (filter_op_entries q1 C HC), (filter_op_entries q2 C HC).
  simpl.
  rewrite (filter_op_entries q2 _ (pureFilter_entries q1 C HC)).
  rewrite (filter_op_entries q1 _ (pureFilter_entries q2 C HC)).
  f_equal. unfold pureFilter.
  destruct (trim q1), (trim q2); try done. apply filter_bool_comm.
Qed.

(** The callback reads two fields only. *)
Lemma itemMatches_addField k v q e :
  k ≠ str "title" → k ≠ str "description" →
  itemMatches q (addField k v e) = itemMatches q e.
Proof.
  intros Ht Hd. destruct e as [| | | | |o]; try done.
  unfold itemMatches, addField, getProp. by rewrite !lookup_insert_ne.
Qed.

(** X5: fields other than [title] and [description] are ignored: giving
    every record of a catalog one more field (or a new value for it) changes
    neither which entries are returned nor whether the filter throws. *)
Theorem filter_ignores_field (k : jsstring) (v : json) (C : list json)
    (q : jsstring) :
  k ≠ str "title" → k ≠ str "description" →
  filter_op (fmap (M := list) (addField k v) C) q =
  r ← filter_op C q; Normal (fmap (M := list) (addField k v) r).
Proof.
  intros Ht Hd. unfold filter_op, filteredResults. simpl.
  destruct (trim q); [done|]. apply arrayFilter_fmap.
  intros e. by apply itemMatches_addField.
Qed.

End FilterComposition.

(** ** The life of the search widget *)

Section LoadLife.
Import App.

Lemma step_consistent s i : consistent s → consistent (step s i).
Proof.
  unfold consistent. intros Hs.
  destruct (step_cases s i) as
    [->|[(_ & Hp & ->)|[(q & _ & ->)|[(r & _ & Hp & _ & ->)|
     [(d & _ & Hp & ->)|(e & Hp & ->)]]]]]; simpl; try done.
  - rewrite Hp in Hs. destruct Hs as [-> ->]. done.
  - rewrite Hp in Hs. done.
  - rewrite Hp in Hs. destruct Hs as [-> _]. done.
  - destruct Hp as [[Hp _]|[Hp _]]; rewrite Hp in Hs;
      destruct Hs as [-> ->]; eauto.
Qed.

(** X6: the page of the search widget, after any sequence of events, is in
    one of five shapes. The resource is fetched once, by [created], and
    never again; the console receives at most one entry, when the load
    ends; after a success the catalog is the value that was logged, and in
    every other phase it is the empty array. *)
Theorem run_consistent (inputs : list input) : consistent (run start inputs).
Proof.
  induction inputs as [|i inputs IH] using rev_ind; [done|].
  rewrite run_snoc. by apply step_consistent.
Qed.

(** X7: typing and the network do not interfere: a keystroke and an event
    of the load can be swapped without changing the page they lead to. *)
Theorem typed_commutes (s : page) (q : jsstring) (i : input) :
  (∀ q', i ≠ Typed q') →
  step (step s (Typed q)) i = step (step s i) (Typed q).
Proof.
  intros Hi. destruct s as [[q0 d0] t p].
  destruct i as [|q'|[r|e]|[d|e]]; [|by destruct (Hi q')|..];
    destruct p; try reflexivity.
  unfold step, checkResponse; simpl. by destruct (ok r).
Qed.

Lemma step_ready s i :
  loading s = Ready →
  loading (step s i) = Ready ∧ data (view (step s i)) = data (view s) ∧
  trace (step s i) = trace s.
Proof.
  intros Hs.
  destruct (step_cases s i) as
    [->|[(_ & Hp & ->)|[(q & _ & ->)|[(r & _ & Hp & _ & ->)|
     [(d & _ & Hp & ->)|(e & [[Hp _]|[Hp _]] & ->)]]]]]; simpl; try done;
    congruence.
Qed.

Lemma run_ready s inputs :
  loading s = Ready →
  loading (run s inputs) = Ready ∧ data (view (run s inputs)) = data (view s) ∧
  trace (run s inputs) = trace s.
Proof.
  intros Hs. induction inputs as [|i inputs (Hp & Hd & Ht)] using rev_ind;
    [done|].
  rewrite run_snoc. destruct (step_ready (run s inputs) i Hp) as (? & ? & ?).
  repeat split; congruence.
Qed.

(** X8: the catalog is loaded once and for all. From the turn in which the
    body has parsed to [d], whatever is typed or arrives later, the catalog
    is [d], nothing more is logged, and, when [d] is an array, the computed
    property is the filter of that array by the query of the moment. *)
Theorem loaded_catalog_frozen `{CaseMapping}
    (s : page) (d : json) (more : list input) :
  loading s = AwaitingBody →
  let s' := run (step s (BodyParsed (Normal d))) more in
  loading s' = Ready ∧ data (view s') = d ∧
  trace s' = trace s ++ [ConsoleLog (str "Data loaded successfully:") d] ∧
  ∀ C, d = JArr C → filteredResults (view s') = filter_op C (query (view s')).
Proof.
  intros Hp s'.
  assert (Hstep : step s (BodyParsed (Normal d)) =
    {| view := {| query := query (view s); data := d |};
       trace := trace s ++ [ConsoleLog (str "Data loaded successfully:") d];
       loading := Ready |}) by (unfold step; by rewrite Hp).
  destruct (run_ready (step s (BodyParsed (Normal d))) more) as (Hr & Hd & Ht).
  { by rewrite Hstep. }
  fold s' in Hr, Hd, Ht. rewrite Hstep in Hd, Ht. simpl in Hd, Ht.
  repeat split; [done|done|done|]. intros C ->. unfold filter_op.
  destruct (view s') as [q' d']. simpl in *. by subst d'.
Qed.

(** X9: a body that is valid JSON but not an array breaks the search: once
    it is loaded, the computed property throws a [TypeError] for every
    query that is not blank, from then on. *)
Theorem loaded_non_array_throws `{CaseMapping}
    (s : page) (d : json) (more : list input) :
  loading s = AwaitingBody → (∀ items, d ≠ JArr items) →
  let s' := run (step s (BodyParsed (Normal d))) more in
  trim (query (view s')) ≠ [] → filteredResults (view s') = Throw TypeError.
Proof.
  intros Hp Hd s' Hq.
  assert (Hstep : step s (BodyParsed (Normal d)) =
    {| view := {| query := query (view s); data := d |};
       trace := trace s ++ [ConsoleLog (str "Data loaded successfully:") d];
       loading := Ready |}) by (unfold step; by rewrite Hp).
  destruct (run_ready (step s (BodyParsed (Normal d))) more) as (_ & Hd' & _).
  { by rewrite Hstep. }
  fold s' in Hd'. rewrite Hstep in Hd'. simpl in Hd'.
  unfold filteredResults. rewrite Hd'.
  destruct (trim (query (view s'))); [done|].
  destruct d; try done. by destruct (Hd elements).
Qed.

End LoadLife.

(** ** The accounts of the clipboard button *)

Section ClipboardAccounts.
Import Codes.

Lemma written_app h1 h2 : written (h1 ++ h2) = written h1 ++ written h2.
Proof. unfold written. by rewrite omap_app. Qed.

Lemma requested_app i1 i2 : requested (i1 ++ i2) = requested i1 ++ requested i2.
Proof. unfold requested. by rewrite omap_app. Qed.

(** What one turn adds to the history: as many alerts as settlements, as
    many console errors as rejections, and the write that the click asked
    for, if any. *)
Lemma step_accounts s i :
  ∃ new, history (step s i) = history s ++ new ∧
         count isAlert new = count isSettlement new ∧
         count isError new = count isRejection new ∧
         written new = requested [i].
Proof.
  destruct i as [code clipboard|n outcome]; unfold step.
  - destruct code as [text|], clipboard; simpl; eexists;
      (split; [by rewrite <- ?app_assoc|]); done.
  - destruct (bool_decide (n ∈ pending s)).
    + destruct outcome as [[]|err]; simpl; eexists;
        (split; [by rewrite <- ?app_assoc|]); done.
    + exists []. split; [by rewrite app_nil_r|]. by destruct outcome.
Qed.

(** X10: the accounts of every history balance. There are as many alerts as
    settled writes (one per settlement, none at a click), as many console
    errors as rejected writes, and the texts given to the clipboard are, in
    order, the texts that [#myCode] held at the clicks made while the
    element and the clipboard were there: every such click writes, without
    waiting for an earlier write. *)
Theorem clipboard_accounts (inputs : list input) :
  let h := history (run start inputs) in
  count isAlert h = count isSettlement h ∧
  count isError h = count isRejection h ∧
  written h = requested inputs.
Proof.
  cbv zeta.
  induction inputs as [|i inputs (Ha & He & Hw)] using rev_ind; [done|].
  rewrite run_snoc', requested_app.
  destruct (step_accounts (run start inputs) i) as (new & -> & Ha' & He' & Hw').
  rewrite !count_app, written_app. repeat split; congruence.
Qed.

End ClipboardAccounts.

(** ** The further properties on concrete inputs *)

Lemma filter_query_case_witness :
  toLowerCase (CaseMapping := asciiCase) (str "ARC")
    = toLowerCase (CaseMapping := asciiCase) (str "arc") ∧
  trim (str "ARC") ≠ [] ∧ trim (str "arc") ≠ [] ∧
  App.filter_op (H := asciiCase) scenario (str "ARC")
    = App.filter_op (H := asciiCase) scenario (str "arc").
Proof.
  assert (Hl : toLowerCase (CaseMapping := asciiCase) (str "ARC")
               = toLowerCase (CaseMapping := asciiCase) (str "arc"))
    by (vm_compute; reflexivity).
  assert (Hq : trim (str "ARC") ≠ []) by (vm_compute; discriminate).
  assert (Hq' : trim (str "arc") ≠ []) by (vm_compute; discriminate).
  split; [exact Hl|]. split; [exact Hq|]. split; [exact Hq'|].
  exact (filter_query_case (H := asciiCase) scenario _ _ Hl Hq Hq').
Defined.


Lemma filter_commutes_witness :
  Forall pageEntry scenario ∧
  (App.filter_op (H := asciiCase) scenario (str "arc")
     ≫= λ r, App.filter_op (H := asciiCase) r (str "metal")) =
  (App.filter_op (H := asciiCase) scenario (str "metal")
     ≫= λ r, App.filter_op (H := asciiCase) r (str "arc")).
Proof.
  assert (HC : Forall pageEntry scenario) by page_entries.
  split; [exact HC|].
  exact (filter_commutes (H := asciiCase) scenario (str "arc") (str "metal") HC).
Defined.

Lemma filter_ignores_field_witness :
  str "url" ≠ str "title" ∧ str "url" ≠ str "description" ∧
  App.filter_op (H := asciiCase)
    (fmap (M := list) (addField (str "url") (JStr (str "/notes.html"))) scenario)
    (str "arc") =
  (r ← App.filter_op (H := asciiCase) scenario (str "arc");
   Normal (fmap (M := list) (addField (str "url") (JStr (str "/notes.html"))) r)).
Proof.
  assert (Ht : str "url" ≠ str "title") by (vm_compute; discriminate).
  assert (Hd : str "url" ≠ str "description") by (vm_compute; discriminate).
  split; [exact Ht|]. split; [exact Hd|].
  exact (filter_ignores_field (H := asciiCase) (str "url")
           (JStr (str "/notes.html")) scenario (str "arc") Ht Hd).
Defined.

Lemma typed_commutes_witness :
  (∀ q', App.Created ≠ App.Typed q') ∧
  App.step (App.step App.start (App.Typed (str "arc"))) App.Created
  = App.step (App.step App.start App.Created) (App.Typed (str "arc")).
Proof.
  assert (Hi : ∀ q', App.Created ≠ App.Typed q') by (intros q'; discriminate).
  split; [exact Hi|].
  exact (typed_commutes App.start (str "arc") App.Created Hi).
Defined.

Lemma loaded_catalog_frozen_witness :
  App.loading
    (App.run App.start
       [App.Created; App.Responded (Normal (App.Response true (str "OK")))])
  = App.AwaitingBody ∧
  App.data (App.view
    (App.run
       (App.step
          (App.run App.start
             [App.Created; App.Responded (Normal (App.Response true (str "OK")))])
          (App.BodyParsed (Normal (JArr scenario))))
       [App.Typed (str "arc"); App.BodyParsed (Normal JNull); App.Created]))
  = JArr scenario.
Proof.
  split; [reflexivity|].
  exact (proj1 (proj2 (loaded_catalog_frozen (H := asciiCase)
           (App.run App.start
              [App.Created; App.Responded (Normal (App.Response true (str "OK")))])
           (JArr scenario)
           [App.Typed (str "arc"); App.BodyParsed (Normal JNull); App.Created]
           eq_refl))).
Defined.

Lemma loaded_non_array_throws_witness :
  App.loading
    (App.run App.start
       [App.Created; App.Responded (Normal (App.Response true (str "OK")))])
  = App.AwaitingBody ∧
  (∀ items, JObj ∅ ≠ JArr items) ∧
  trim (App.query (App.view
    (App.run
       (App.step
          (App.run App.start
             [App.Created; App.Responded (Normal (App.Response true (str "OK")))])
          (App.BodyParsed (Normal (JObj ∅))))
       [App.Typed (str "arc")]))) ≠ [] ∧
  App.filteredResults (H := asciiCase) (App.view
    (App.run
       (App.step
          (App.run App.start
             [App.Created; App.Responded (Normal (App.Response true (str "OK")))])
          (App.BodyParsed (Normal (JObj ∅))))
       [App.Typed (str "arc")])) = Throw TypeError.
Proof.
  assert (Hd : ∀ items, JObj ∅ ≠ JArr items) by (intros items; discriminate).
  assert (Hq : trim (App.query (App.view
    (App.run
       (App.step
          (App.run App.start
             [App.Created; App.Responded (Normal (App.Response true (str "OK")))])
          (App.BodyParsed (Normal (JObj ∅))))
       [App.Typed (str "arc")]))) ≠ []) by (vm_compute; discriminate).
  split; [reflexivity|]. split; [exact Hd|]. split; [exact Hq|].
  exact (loaded_non_array_throws (H := asciiCase)
           (App.run App.start
              [App.Created; App.Responded (Normal (App.Response true (str "OK")))])
           (JObj ∅) [App.Typed (str "arc")] eq_refl Hd Hq).
Defined.
